(** * Snippet window memory of [langchain_utils.py]

    A shallow embedding of [SnippetsBufferWindowMemory] (the bounded,
    deduplicating buffer of retrieved document snippets) and of the
    constants of [initialize_chat_conversation], with the properties the
    specification states about them. *)

From Stdlib Require Import ZArith Lia Ascii.
From stdpp Require Import list strings pretty.

Open Scope string_scope.
Open Scope Z_scope.
Open Scope list_scope.

(** ** Python primitives used by the source *)

(** The line feed written [\n] in the source's f-strings. *)
Definition nl : string := String (Ascii.ascii_of_nat 10) "".

(** [str(n)] of a Python [int], as interpolated by an f-string. *)
Definition str (n : Z) : string := pretty n.

(** [l[:stop]] on a list: a negative [stop] counts from the end, and the
    bound is clamped to [0 .. len(l)]. *)
Definition slice_to {A : Type} (stop : Z) (l : list A) : list A :=
  let len := Z.of_nat (length l) in
  let stop := if stop <? 0 then Z.max 0 (stop + len) else Z.min stop len in
  take (Z.to_nat stop) l.

(** [''.join(l)] *)
Definition join (l : list string) : string := foldr String.app "" l.

(** ** Retrieved documents *)

(** A langchain [Document] as [search_faiss_index] returns it: the text
    and the three metadata entries the memory reads. *)
Record Document : Type := mkDocument {
  page_content : string;
  metadata_page : Z;
  metadata_title : string;
  metadata_source : string
}.

(** Lines 40-48: the block built in [snippet_to_add], one [+=] at a time. *)
Definition snippet_to_add (snippet : Document) : string :=
  let page_number := metadata_page snippet in
  let s := "" in
  let s :=
    if String.eqb (metadata_title snippet) (metadata_source snippet)
    then s +:+ (metadata_source snippet +:+ nl)
    else s +:+ ("[" +:+ metadata_title snippet +:+ "]("
                    +:+ metadata_source snippet +:+ ")" +:+ nl) in
  let s := s +:+ ("<START_SNIPPET_PAGE_" +:+ str (page_number + 1) +:+ ">" +:+ nl) in
  let s := s +:+ (page_content snippet +:+ nl) in
  let s := s +:+ ("<END_SNIPPET_PAGE_" +:+ str (page_number + 1) +:+ ">" +:+ nl) in
  s.

(** ** The memory object *)

Section Memory.

(** The vector index and the similarity search of [search_indexing] are
    outside this file of the repository: the memory only stores the one
    and calls the other. *)
Variable FAISS : Type.
Variable search_faiss_index : FAISS -> string -> list Document.

Record SnippetsBufferWindowMemory : Type := mkMemory {
  k : Z;
  index : FAISS;
  pages : list Z;
  snippets : list string
}.

(** Errors a constructor call can raise. *)
Inductive PyError : Type :=
  | KeyError (key : string).

(** The keywords [k] and [index] of a constructor call, as line 101
    passes them; a call that also sets the fields [pages] or [snippets] by
    keyword is not represented. *)
Record Kwargs : Type := mkKwargs {
  kw_k : option Z;
  kw_index : option FAISS
}.

(** [ConversationBufferWindowMemory.__init__] is langchain's: it stores
    the keyword [k] in the field declared [k: int = 5]; the field carries
    no validator. *)
Definition ConversationBufferWindowMemory_init (kwargs : Kwargs) : Z :=
  default 5 (kw_k kwargs).

(** Lines 20-22: [__init__]. The class attributes [pages] and [snippets]
    start as empty lists; [kwargs['index']] raises when the key is absent. *)
Definition init (kwargs : Kwargs) : PyError + SnippetsBufferWindowMemory :=
  let k0 := ConversationBufferWindowMemory_init kwargs in
  match kw_index kwargs with
  | None => inl (KeyError "index")
  | Some i => inr {| k := k0; index := i; pages := []; snippets := [] |}
  end.

(** Lines 37-51: one iteration of the [for] loop. *)
Definition add_if_new (self : SnippetsBufferWindowMemory) (snippet : Document)
    : SnippetsBufferWindowMemory :=
  let page_number := metadata_page snippet in
  let block := snippet_to_add snippet in
  if bool_decide (block ∈ snippets self) then self
  else {| k := k self; index := index self;
          pages := pages self ++ [page_number];
          snippets := snippets self ++ [block] |}.

(** Lines 34-56: what [load_memory_variables] does to the object once the
    search has returned [similar_snippets]. *)
Definition merge (similar_snippets : list Document)
    (self : SnippetsBufferWindowMemory) : SnippetsBufferWindowMemory :=
  let self := {| k := k self; index := index self;
                 pages := reverse (pages self);
                 snippets := reverse (snippets self) |} in
  let self := foldl add_if_new self similar_snippets in
  {| k := k self; index := index self;
     pages := slice_to (k self) (reverse (pages self));
     snippets := slice_to (k self) (reverse (snippets self)) |}.

(** Lines 24-59: [load_memory_variables], with
    [inputs['user_messages_history']] as its argument; it returns the
    updated object and the text stored under the key ['snippets']. *)
Definition load_memory_variables (self : SnippetsBufferWindowMemory)
    (user_messages_history : string) : SnippetsBufferWindowMemory * string :=
  let similar_snippets := search_faiss_index (index self) user_messages_history in
  let self := merge similar_snippets self in
  (self, join (snippets self)).

(** Line 100: the window size [initialize_chat_conversation] passes. *)
Definition prompt_number_snippets : Z := 3.

(** The object after a series of calls, one retrieval result per call. *)
Definition run (self : SnippetsBufferWindowMemory)
    (retrievals : list (list Document)) : SnippetsBufferWindowMemory :=
  foldl (fun s similar => merge similar s) self retrievals.

End Memory.

Arguments mkMemory {FAISS}.
Arguments k {FAISS}.
Arguments index {FAISS}.
Arguments pages {FAISS}.
Arguments snippets {FAISS}.
Arguments mkKwargs {FAISS}.
Arguments kw_k {FAISS}.
Arguments kw_index {FAISS}.
Arguments ConversationBufferWindowMemory_init {FAISS}.
Arguments init {FAISS}.
Arguments add_if_new {FAISS}.
Arguments merge {FAISS}.
Arguments load_memory_variables {FAISS}.
Arguments run {FAISS}.

(** The memory as construction leaves it: nothing held. *)
Definition empty_memory {FAISS : Type} (k0 : Z) (i : FAISS)
    : SnippetsBufferWindowMemory FAISS :=
  {| k := k0; index := i; pages := []; snippets := [] |}.

(** The window read as one sequence of (page, block) entries. *)
Definition entry : Type := Z * string.

Definition entry_of (d : Document) : entry :=
  (metadata_page d, snippet_to_add d).

Definition held {FAISS : Type} (self : SnippetsBufferWindowMemory FAISS)
    : list entry :=
  zip (pages self) (snippets self).

Definition of_entries {FAISS : Type} (k0 : Z) (i : FAISS) (H : list entry)
    : SnippetsBufferWindowMemory FAISS :=
  {| k := k0; index := i; pages := H.*1; snippets := H.*2 |}.

(** The window respects its capacity. *)
Definition within_capacity {FAISS : Type}
    (self : SnippetsBufferWindowMemory FAISS) : Prop :=
  Z.of_nat (length (snippets self)) <= k self /\
  Z.of_nat (length (pages self)) <= k self.

(** ** Auxiliary and reference definitions *)

(** The documents the loop of lines 37-51 appends when the list it tests
    membership in starts as [seen]. *)
Fixpoint appended (seen : list string) (cs : list Document) : list Document :=
  match cs with
  | [] => []
  | c :: rest =>
      if bool_decide (snippet_to_add c ∈ seen) then appended seen rest
      else c :: appended (seen ++ [snippet_to_add c]) rest
  end.

(** The candidates of one retrieval that are new and first of their kind:
    the block is not among [held_blocks] and no candidate [earlier] in the
    same retrieval has the same block. *)
Fixpoint first_new (held_blocks : list string) (earlier cs : list Document)
    : list Document :=
  match cs with
  | [] => []
  | c :: rest =>
      (if bool_decide (snippet_to_add c ∈ held_blocks)
          || bool_decide (snippet_to_add c ∈ (snippet_to_add <$> earlier))
       then [] else [c])
      ++ first_new held_blocks (earlier ++ [c]) rest
  end.

(** The stack restatement of the merge, after the specification's words:
    the held sequence is a stack with its top at the front; every new
    unique item is pushed on it, in retrieval order; the first [k]
    elements are kept. *)
Definition new_unique_items (H : list entry) (cs : list Document)
    : list entry :=
  entry_of <$> first_new (H.*2) [] cs.

Definition push (stack : list entry) (x : entry) : list entry := x :: stack.

Definition stack_merge (k0 : Z) (H : list entry) (cs : list Document)
    : list entry :=
  take (Z.to_nat k0) (foldl push H (new_unique_items H cs)).

(** ** Sample documents *)

Definition docA : Document :=
  {| page_content := "alpha"; metadata_page := 0;
     metadata_title := "a.pdf"; metadata_source := "a.pdf" |}.

Definition docB : Document :=
  {| page_content := "beta"; metadata_page := 4;
     metadata_title := "Book B"; metadata_source := "b.pdf" |}.

Definition docC : Document :=
  {| page_content := "gamma"; metadata_page := 11;
     metadata_title := "c.pdf"; metadata_source := "c.pdf" |}.

(** A document other than [docB] whose block is the same text: its title
    equals its source, and both already have the link shape. *)
Definition docB' : Document :=
  {| page_content := "beta"; metadata_page := 4;
     metadata_title := "[Book B](b.pdf)";
     metadata_source := "[Book B](b.pdf)" |}.

(** ** The memory [initialize_chat_conversation] builds *)

(** Line 101: [SnippetsBufferWindowMemory(k=prompt_number_snippets,
    index=index, ...)]; the other keywords go to langchain's base class. *)
Definition snippets_memory {FAISS : Type} (index0 : FAISS)
    : PyError + SnippetsBufferWindowMemory FAISS :=
  init {| kw_k := Some prompt_number_snippets; kw_index := Some index0 |}.

(** ** Auxiliary predicates on strings *)

(** No character of [s] is [c]. *)
Fixpoint lacks (c : Ascii.ascii) (s : string) : Prop :=
  match s with
  | EmptyString => True
  | String x rest => x <> c /\ lacks c rest
  end.

(** ** Python primitives *)

Lemma slice_to_nonneg {A : Type} (n : Z) (l : list A) :
  0 <= n -> slice_to n l = take (Z.to_nat n) l.
Proof.
  intros Hn. unfold slice_to.
  destruct (Z.ltb_spec n 0) as [?|_]; [lia|].
  destruct (Z.le_gt_cases n (Z.of_nat (length l))) as [Hle|Hgt].
  - now rewrite Z.min_l by lia.
  - rewrite Z.min_r by lia. rewrite Nat2Z.id.
    rewrite !take_ge; [reflexivity|lia|lia].
Qed.

Lemma slice_to_fmap {A B : Type} (f : A -> B) (n : Z) (l : list A) :
  slice_to n (f <$> l) = f <$> slice_to n l.
Proof. unfold slice_to. now rewrite length_fmap, fmap_take. Qed.

Lemma slice_to_prefix {A : Type} (n : Z) (l : list A) :
  slice_to n l `prefix_of` l.
Proof. apply prefix_take. Qed.

Lemma slice_to_length {A : Type} (n : Z) (l : list A) :
  0 <= n -> Z.of_nat (length (slice_to n l)) <= n.
Proof.
  intros Hn. rewrite slice_to_nonneg by assumption.
  rewrite length_take. lia.
Qed.

Lemma slice_to_id {A : Type} (n : Z) (l : list A) :
  Z.of_nat (length l) <= n -> slice_to n l = l.
Proof.
  intros Hl. rewrite slice_to_nonneg by lia. apply take_ge. lia.
Qed.

Lemma str_examples : str 12 = "12" /\ str 0 = "0" /\ str (-3) = "-3".
Proof. repeat split; reflexivity. Qed.

(** ** The loop and the merge in closed form *)

Section MergeFacts.

Context {FAISS : Type}.
Implicit Types (self : SnippetsBufferWindowMemory FAISS).
Implicit Types (cs : list Document) (seen : list string).

Lemma foldl_add_if_new cs : forall self,
  foldl add_if_new self cs =
  {| k := k self; index := index self;
     pages := pages self ++ (metadata_page <$> appended (snippets self) cs);
     snippets := snippets self ++ (snippet_to_add <$> appended (snippets self) cs) |}.
Proof.
  induction cs as [|c cs IH]; intros self; simpl.
  - rewrite !app_nil_r. now destruct self.
  - rewrite IH. unfold add_if_new.
    case_bool_decide; simpl; [reflexivity|].
    now rewrite <- !app_assoc.
Qed.

Lemma merge_closed_form cs self :
  merge cs self =
  {| k := k self; index := index self;
     pages := slice_to (k self)
       (reverse (metadata_page <$> appended (reverse (snippets self)) cs)
        ++ pages self);
     snippets := slice_to (k self)
       (reverse (snippet_to_add <$> appended (reverse (snippets self)) cs)
        ++ snippets self) |}.
Proof.
  unfold merge. rewrite foldl_add_if_new. simpl.
  now rewrite !reverse_app, !reverse_involutive.
Qed.

Lemma merge_k cs self : k (merge cs self) = k self.
Proof. now rewrite merge_closed_form. Qed.

Lemma merge_index cs self : index (merge cs self) = index self.
Proof. now rewrite merge_closed_form. Qed.

Lemma appended_spec seen cs c :
  c ∈ appended seen cs -> c ∈ cs /\ snippet_to_add c ∉ seen.
Proof.
  revert seen. induction cs as [|d cs IH]; intros seen; simpl.
  - intros Hc. now apply elem_of_nil in Hc.
  - case_bool_decide as Hd.
    + intros Hc. destruct (IH _ Hc). split; [now right|assumption].
    + intros Hc. apply elem_of_cons in Hc as [->|Hc].
      * split; [now left|assumption].
      * destruct (IH _ Hc) as [Hin Hnot]. split; [now right|].
        intros Hs. apply Hnot. apply elem_of_app. now left.
Qed.

Lemma appended_NoDup cs : forall seen,
  NoDup seen -> NoDup (seen ++ (snippet_to_add <$> appended seen cs)).
Proof.
  induction cs as [|d cs IH]; intros seen Hnd; simpl.
  - now rewrite app_nil_r.
  - case_bool_decide as Hd; [now apply IH|].
    simpl. rewrite cons_middle, app_assoc. apply IH.
    apply NoDup_app. split; [assumption|]. split.
    + intros x Hx Hx'. apply list_elem_of_singleton in Hx'. now subst.
    + apply NoDup_singleton.
Qed.

Lemma appended_nil_iff cs : forall seen,
  appended seen cs = [] <-> (forall c, c ∈ cs -> snippet_to_add c ∈ seen).
Proof.
  induction cs as [|d cs IH]; intros seen; simpl.
  - split; [|reflexivity]. intros _ c Hc. now apply elem_of_nil in Hc.
  - case_bool_decide as Hd.
    + rewrite IH. split.
      * intros H c Hc. apply elem_of_cons in Hc as [->|Hc]; auto.
      * intros H c Hc. apply H. now right.
    + split; [discriminate|]. intros H. exfalso. apply Hd, H. now left.
Qed.

Lemma appended_first_new cs : forall seen held_blocks earlier,
  (forall b, b ∈ seen <->
             b ∈ held_blocks \/ b ∈ (snippet_to_add <$> earlier)) ->
  appended seen cs = first_new held_blocks earlier cs.
Proof.
  induction cs as [|c cs IH]; intros seen hb earlier Hseen; simpl;
    [reflexivity|].
  assert (Hnext : forall b, b ∈ seen ++ [snippet_to_add c] <->
            b ∈ hb \/ b ∈ (snippet_to_add <$> earlier ++ [c])).
  { intros b. rewrite fmap_app, !elem_of_app, Hseen. simpl. tauto. }
  case_bool_decide as Hc.
  - apply Hseen in Hc.
    assert (Hor : bool_decide (snippet_to_add c ∈ hb)
                  || bool_decide (snippet_to_add c ∈ (snippet_to_add <$> earlier))
                  = true).
    { apply orb_true_iff. rewrite !bool_decide_eq_true. exact Hc. }
    rewrite Hor. simpl. apply IH.
    intros b. rewrite <- Hnext, elem_of_app, list_elem_of_singleton.
    split; [now left|]. intros [?| ->]; [assumption|]. now apply Hseen.
  - assert (Hor : bool_decide (snippet_to_add c ∈ hb)
                  || bool_decide (snippet_to_add c ∈ (snippet_to_add <$> earlier))
                  = false).
    { apply orb_false_iff. rewrite !bool_decide_eq_false.
      split; intros ?; apply Hc, Hseen; tauto. }
    rewrite Hor. simpl. f_equal. now apply IH.
Qed.

Lemma appended_reverse_first_new cs (hb : list string) :
  appended (reverse hb) cs = first_new hb [] cs.
Proof.
  apply appended_first_new. intros b. rewrite elem_of_reverse. simpl.
  split; [now left|]. intros [?|Hb]; [assumption|].
  now apply elem_of_nil in Hb.
Qed.

End MergeFacts.

(** ** Strings *)

Lemma append_empty_l (s : string) : "" +:+ s = s.
Proof. reflexivity. Qed.

Lemma append_cons (x : Ascii.ascii) (a b : string) :
  String x a +:+ b = String x (a +:+ b).
Proof. reflexivity. Qed.

Lemma append_assoc (a b c : string) : (a +:+ b) +:+ c = a +:+ (b +:+ c).
Proof.
  induction a as [|x a IH]; [reflexivity|].
  now rewrite !append_cons, IH.
Qed.

(** ** Properties of the memory *)

Section MemoryProperties.

Context {FAISS : Type}.
Implicit Types (self : SnippetsBufferWindowMemory FAISS).
Implicit Types (cs : list Document) (i : FAISS).

(** [load_memory_variables] changes the object by [merge] on what the
    search returned, and returns the held blocks joined. *)
Lemma load_memory_variables_merge
    (search : FAISS -> string -> list Document) self (history : string) :
  load_memory_variables search self history =
  (merge (search (index self) history) self,
   join (snippets (merge (search (index self) history) self))).
Proof. reflexivity. Qed.

(** C7: the formatted block is a header line, which is the source alone
    when the title equals the source and the link [[title](source)]
    otherwise, then a start marker carrying [page + 1], then the body text,
    then an end marker carrying [page + 1], each followed by a line feed. *)
Theorem snippet_block_layout (d : Document) (header : string) :
  (metadata_title d = metadata_source d /\ header = metadata_source d) \/
  (metadata_title d <> metadata_source d /\
   header = "[" +:+ metadata_title d +:+ "](" +:+ metadata_source d +:+ ")") ->
  snippet_to_add d =
    header +:+ nl +:+
    "<START_SNIPPET_PAGE_" +:+ str (metadata_page d + 1) +:+ ">" +:+ nl +:+
    page_content d +:+ nl +:+
    "<END_SNIPPET_PAGE_" +:+ str (metadata_page d + 1) +:+ ">" +:+ nl.
Proof.
  intros Hheader. unfold snippet_to_add.
  destruct (String.eqb_spec (metadata_title d) (metadata_source d)) as [He|Hne];
    destruct Hheader as [[Ht ->]|[Ht ->]]; try contradiction.
  - now rewrite append_empty_l, !append_assoc.
  - now rewrite append_empty_l, !append_assoc.
Qed.

(** C6: when the window is within its capacity, an update whose retrieval
    returns no candidate leaves the object, snippets and pages, as it was. *)
Theorem merge_no_candidates self :
  within_capacity self -> merge [] self = self.
Proof.
  intros [Hs Hp]. rewrite merge_closed_form. cbn [appended fmap list_fmap].
  rewrite reverse_nil, !app_nil_l.
  rewrite !slice_to_id by assumption. now destruct self.
Qed.

(** C10: the entries one update adds are those of the candidates whose
    block is not held and not the block of an earlier candidate of the same
    retrieval: of several candidates with one block the first alone is
    added, as with [docB] and [docB']. *)
Theorem merge_adds_first_occurrences self cs :
  (snippets (merge cs self) =
     slice_to (k self)
       (reverse (snippet_to_add <$> first_new (snippets self) [] cs)
        ++ snippets self) /\
   pages (merge cs self) =
     slice_to (k self)
       (reverse (metadata_page <$> first_new (snippets self) [] cs)
        ++ pages self)) /\
  (docB <> docB' /\
   merge [docB; docB'; docC] (empty_memory 3 (index self)) =
   {| k := 3; index := index self; pages := [11; 4];
      snippets := [snippet_to_add docC; snippet_to_add docB] |}).
Proof.
  split.
  - rewrite merge_closed_form. simpl.
    now rewrite appended_reverse_first_new.
  - split; [discriminate|reflexivity].
Qed.

(** C4: a candidate whose block is already held is not added again, and
    the entries held before stay in their order behind the added ones;
    with size 2 and [A, B] held, retrieving [B, C] leaves [C, A]. *)
Theorem merge_keeps_held_in_place self cs :
  (exists new : list Document,
     (forall c, c ∈ new -> c ∈ cs /\ snippet_to_add c ∉ snippets self) /\
     snippets (merge cs self) =
       slice_to (k self) (reverse (snippet_to_add <$> new) ++ snippets self) /\
     pages (merge cs self) =
       slice_to (k self) (reverse (metadata_page <$> new) ++ pages self)) /\
  merge [docB; docC]
    {| k := 2; index := index self; pages := [0; 4];
       snippets := [snippet_to_add docA; snippet_to_add docB] |} =
    {| k := 2; index := index self; pages := [11; 0];
       snippets := [snippet_to_add docC; snippet_to_add docA] |}.
Proof.
  split; [|reflexivity].
  exists (appended (reverse (snippets self)) cs). split.
  - intros c Hc. apply appended_spec in Hc as [Hin Hnot].
    split; [assumption|]. now rewrite elem_of_reverse in Hnot.
  - rewrite merge_closed_form. simpl. split; reflexivity.
Qed.

(** Pushing items one at a time leaves them in reverse order on top. *)
Lemma foldl_push (items : list entry) : forall stack,
  foldl push stack items = reverse items ++ stack.
Proof.
  induction items as [|x items IH]; intros stack; simpl; [reflexivity|].
  rewrite IH, reverse_cons, <- app_assoc. reflexivity.
Qed.

(** C5: on every held sequence of (page, block) entries and every
    candidate sequence, the double-reversal merge of the source leaves the
    entries the stack restatement leaves: the new unique items pushed on
    the front of the held sequence, the first [k] kept. *)
Theorem merge_is_stack_merge i (k0 : Z) (H : list entry) cs :
  0 <= k0 ->
  held (merge cs (of_entries k0 i H)) = stack_merge k0 H cs.
Proof.
  intros Hk. unfold held, stack_merge, new_unique_items.
  rewrite merge_closed_form, foldl_push. cbn [of_entries k pages snippets].
  rewrite appended_reverse_first_new.
  set (new := first_new (H.*2) [] cs).
  change (metadata_page <$> new) with (fst ∘ entry_of <$> new).
  change (snippet_to_add <$> new) with (snd ∘ entry_of <$> new).
  rewrite !list_fmap_compose, <- !fmap_reverse, <- !fmap_app.
  rewrite !slice_to_fmap, zip_fst_snd.
  now apply slice_to_nonneg.
Qed.

End MemoryProperties.

(** ** Invariants over a series of updates *)

Section WindowHistory.

Context {FAISS : Type}.
Implicit Types (self : SnippetsBufferWindowMemory FAISS).
Implicit Types (cs : list Document) (i : FAISS).
Implicit Types (retrievals : list (list Document)).

Lemma slice_to_elem_of {A : Type} (n : Z) (l : list A) (x : A) :
  x ∈ slice_to n l -> x ∈ l.
Proof.
  intros Hx. destruct (slice_to_prefix n l) as [rest ->].
  apply elem_of_app. now left.
Qed.

Lemma slice_to_NoDup {A : Type} (n : Z) (l : list A) :
  NoDup l -> NoDup (slice_to n l).
Proof.
  intros Hnd. unfold slice_to.
  eapply sublist_NoDup; [exact Hnd|apply sublist_take].
Qed.

Lemma run_snoc self retrievals cs :
  run self (retrievals ++ [cs]) = merge cs (run self retrievals).
Proof. unfold run. now rewrite foldl_app. Qed.

Lemma run_k retrievals : forall self, k (run self retrievals) = k self.
Proof.
  induction retrievals as [|cs rs IH]; intros self; [reflexivity|].
  cbn [run foldl]. fold (run (merge cs self) rs).
  now rewrite IH, merge_k.
Qed.

Lemma merge_NoDup cs self :
  NoDup (snippets self) -> NoDup (snippets (merge cs self)).
Proof.
  intros Hnd. rewrite merge_closed_form. cbn [snippets].
  apply slice_to_NoDup.
  rewrite <- (reverse_involutive (snippets self)) at 2.
  rewrite <- reverse_app, reverse_Permutation.
  apply appended_NoDup. now rewrite reverse_Permutation.
Qed.

Lemma merge_length cs self :
  0 <= k self -> Z.of_nat (length (snippets (merge cs self))) <= k self.
Proof.
  intros Hk. rewrite merge_closed_form. cbn [snippets].
  now apply slice_to_length.
Qed.

Lemma merge_tracks cs self (docs : list Document) :
  snippets self = snippet_to_add <$> docs ->
  pages self = metadata_page <$> docs ->
  exists docs' : list Document,
    (forall d, d ∈ docs' -> d ∈ docs \/ d ∈ cs) /\
    snippets (merge cs self) = snippet_to_add <$> docs' /\
    pages (merge cs self) = metadata_page <$> docs'.
Proof.
  intros Hs Hp.
  exists (slice_to (k self)
            (reverse (appended (reverse (snippets self)) cs) ++ docs)).
  split; [|split].
  - intros d Hd. apply slice_to_elem_of, elem_of_app in Hd as [Hd|Hd].
    + right. rewrite elem_of_reverse in Hd. now apply appended_spec in Hd.
    + now left.
  - rewrite merge_closed_form. cbn [snippets].
    now rewrite <- slice_to_fmap, fmap_app, fmap_reverse, Hs.
  - rewrite merge_closed_form. cbn [pages].
    now rewrite <- slice_to_fmap, fmap_app, fmap_reverse, Hp.
Qed.

(** C9: from the empty memory, after any series of updates the pages and
    the snippets have one length and are, position by position, the page
    numbers and the blocks of one list of retrieved documents. *)
Theorem pages_follow_snippets i (k0 : Z) retrievals :
  exists docs : list Document,
    (forall d, d ∈ docs -> exists cs, cs ∈ retrievals /\ d ∈ cs) /\
    snippets (run (empty_memory k0 i) retrievals) = snippet_to_add <$> docs /\
    pages (run (empty_memory k0 i) retrievals) = metadata_page <$> docs /\
    length (pages (run (empty_memory k0 i) retrievals)) =
    length (snippets (run (empty_memory k0 i) retrievals)).
Proof.
  induction retrievals as [|cs rs IH] using rev_ind.
  - exists []. repeat split. intros d Hd. now apply elem_of_nil in Hd.
  - destruct IH as (docs & Hfrom & Hs & Hp & _).
    rewrite run_snoc.
    destruct (merge_tracks cs _ docs Hs Hp) as (docs' & Hfrom' & Hs' & Hp').
    exists docs'. split; [|split; [exact Hs'|split; [exact Hp'|]]].
    + intros d Hd. destruct (Hfrom' d Hd) as [Hold|Hnew].
      * destruct (Hfrom d Hold) as (cs' & Hcs' & Hd').
        exists cs'. split; [|assumption]. apply elem_of_app. now left.
      * exists cs. split; [|assumption].
        apply elem_of_app. right. now apply list_elem_of_singleton.
    + now rewrite Hs', Hp', !length_fmap.
Qed.

(** C3: from the empty memory with a size that is not negative, after
    any series of updates the held snippets are at most [k] and no two of
    them are the same text. *)
Theorem window_invariant i (k0 : Z) retrievals :
  0 <= k0 ->
  Z.of_nat (length (snippets (run (empty_memory k0 i) retrievals))) <= k0 /\
  NoDup (snippets (run (empty_memory k0 i) retrievals)).
Proof.
  intros Hk. induction retrievals as [|cs rs IH] using rev_ind.
  - split; [simpl; lia|apply NoDup_nil_2].
  - destruct IH as [_ Hnd]. rewrite run_snoc. split.
    + pose proof (merge_length cs (run (empty_memory k0 i) rs)) as Hlen.
      rewrite run_k in Hlen. now apply Hlen.
    + now apply merge_NoDup.
Qed.

(** C2, amended: with a positive size, a second update on the same
    candidates leaves the held snippets as the first left them exactly
    when every candidate's block is held after the first; the whole
    object, pages included, is then unchanged. *)
Theorem repeated_merge_fixed_iff self cs :
  0 < k self ->
  (snippets (merge cs (merge cs self)) = snippets (merge cs self) <->
   (forall c, c ∈ cs -> snippet_to_add c ∈ snippets (merge cs self))) /\
  ((forall c, c ∈ cs -> snippet_to_add c ∈ snippets (merge cs self)) ->
   merge cs (merge cs self) = merge cs self).
Proof.
  intros Hk.
  assert (Hfix : (forall c, c ∈ cs -> snippet_to_add c ∈ snippets (merge cs self)) ->
                 merge cs (merge cs self) = merge cs self).
  { intros Hall.
    assert (Hnone : appended (reverse (snippets (merge cs self))) cs = []).
    { apply appended_nil_iff. intros c Hc.
      apply elem_of_reverse. now apply Hall. }
    rewrite (merge_closed_form cs (merge cs self)), Hnone.
    cbn [fmap list_fmap]. rewrite reverse_nil, !app_nil_l, merge_k.
    rewrite (merge_closed_form cs self). cbn [k index pages snippets].
    rewrite !(slice_to_id (k self) (slice_to (k self) _))
      by (apply slice_to_length; lia).
    reflexivity. }
  split; [split|exact Hfix].
  - intros Heq c Hc.
    destruct (decide (snippet_to_add c ∈ snippets (merge cs self)))
      as [Hin|Hout]; [exact Hin|exfalso].
    pose proof (merge_closed_form cs (merge cs self)) as Hform.
    apply (f_equal snippets) in Hform. cbn [snippets] in Hform.
    rewrite Heq, merge_k in Hform.
    remember (appended (reverse (snippets (merge cs self))) cs) as new eqn:Hnew.
    destruct (reverse (snippet_to_add <$> new)) as [|x r] eqn:Hrev.
    + apply (f_equal length) in Hrev.
      rewrite length_reverse, length_fmap in Hrev.
      destruct new; [|discriminate].
      symmetry in Hnew. apply appended_nil_iff with (c := c) in Hnew;
        [|assumption].
      apply Hout. now apply elem_of_reverse.
    + assert (Hx : x ∈ reverse (snippet_to_add <$> new))
        by (rewrite Hrev; now left).
      apply elem_of_reverse, list_elem_of_fmap in Hx as (d & -> & Hd).
      rewrite Hnew in Hd. apply appended_spec in Hd as [_ Hd].
      apply Hd, elem_of_reverse. rewrite Hform.
      rewrite slice_to_nonneg by lia.
      destruct (Z.to_nat (k self)) as [|n] eqn:Hn; [lia|].
      now left.
  - intros Hall. now rewrite Hfix.
Qed.

(** C1: what the code leaves on the specification's example, size 2 from
    the empty memory: after retrieving [A, B] the held blocks are [B, A],
    and after then retrieving [C] they are [C, B]; [A], the more relevant
    of the first two, is the one dropped. *)
Theorem recency_example_as_coded i :
  snippets (merge [docA; docB] (empty_memory 2 i)) =
    [snippet_to_add docB; snippet_to_add docA] /\
  snippets (merge [docC] (merge [docA; docB] (empty_memory 2 i))) =
    [snippet_to_add docC; snippet_to_add docB].
Proof. split; reflexivity. Qed.


End WindowHistory.

(** ** The properties on the sample documents *)

Lemma snippet_block_layout_witness :
  snippet_to_add docB =
    "[Book B](b.pdf)" +:+ nl +:+
    "<START_SNIPPET_PAGE_" +:+ str (4 + 1) +:+ ">" +:+ nl +:+
    "beta" +:+ nl +:+
    "<END_SNIPPET_PAGE_" +:+ str (4 + 1) +:+ ">" +:+ nl.
Proof.
  apply (snippet_block_layout docB "[Book B](b.pdf)").
  right. split; [discriminate|reflexivity].
Defined.

Lemma merge_no_candidates_witness :
  within_capacity
    {| k := 2; index := tt; pages := [4]; snippets := [snippet_to_add docB] |} /\
  merge []
    {| k := 2; index := tt; pages := [4]; snippets := [snippet_to_add docB] |} =
    {| k := 2; index := tt; pages := [4]; snippets := [snippet_to_add docB] |}.
Proof.
  assert (Hcap : within_capacity
    {| k := 2; index := tt; pages := [4]; snippets := [snippet_to_add docB] |})
    by (unfold within_capacity; simpl; lia).
  split; [exact Hcap|].
  exact (merge_no_candidates _ Hcap).
Defined.

Lemma merge_is_stack_merge_witness :
  held (merge [docB; docC] (of_entries 2 tt [entry_of docA; entry_of docB])) =
  stack_merge 2 [entry_of docA; entry_of docB] [docB; docC].
Proof.
  apply (merge_is_stack_merge tt 2 [entry_of docA; entry_of docB] [docB; docC]).
  lia.
Defined.

Lemma window_invariant_witness :
  Z.of_nat (length (snippets
    (run (empty_memory 2 tt) [[docA; docB]; [docB; docC]; []]))) <= 2 /\
  NoDup (snippets (run (empty_memory 2 tt) [[docA; docB]; [docB; docC]; []])).
Proof.
  apply (window_invariant tt 2 [[docA; docB]; [docB; docC]; []]). lia.
Defined.

Lemma repeated_merge_fixed_iff_witness :
  (snippets (merge [docA; docB] (merge [docA; docB] (empty_memory 2 tt))) =
   snippets (merge [docA; docB] (empty_memory 2 tt)) <->
   (forall c, c ∈ [docA; docB] ->
      snippet_to_add c ∈ snippets (merge [docA; docB] (empty_memory 2 tt)))) /\
  ((forall c, c ∈ [docA; docB] ->
      snippet_to_add c ∈ snippets (merge [docA; docB] (empty_memory 2 tt))) ->
   merge [docA; docB] (merge [docA; docB] (empty_memory 2 tt)) =
   merge [docA; docB] (empty_memory 2 tt)).
Proof.
  apply (repeated_merge_fixed_iff (empty_memory 2 tt) [docA; docB]).
  reflexivity.
Defined.

(** With size 1, retrieving [A, B] twice leaves [B] and then [A]: the
    second update changes the held snippets. *)
Lemma repeated_merge_changes :
  snippets (merge [docA; docB] (empty_memory 1 tt)) = [snippet_to_add docB] /\
  snippets (merge [docA; docB] (merge [docA; docB] (empty_memory 1 tt))) =
    [snippet_to_add docA] /\
  snippets (merge [docA; docB] (merge [docA; docB] (empty_memory 1 tt))) <>
  snippets (merge [docA; docB] (empty_memory 1 tt)).
Proof.
  split; [reflexivity|]. split; [reflexivity|].
  intros Heq. vm_compute in Heq. discriminate Heq.
Qed.


(** Within one retrieval the new items end up in reverse retrieval order,
    as pushes on a stack leave them. *)
Example new_items_reversed :
  held (merge [docA; docB] (of_entries 2 tt [])) =
  [entry_of docB; entry_of docA].
Proof. reflexivity. Qed.

(** ** Further properties of one update *)

Section UpdateProperties.

Context {FAISS : Type}.
Implicit Types (self : SnippetsBufferWindowMemory FAISS).
Implicit Types (cs : list Document) (seen : list string).

Lemma appended_app cs1 cs2 : forall seen,
  appended seen (cs1 ++ cs2) =
  appended seen cs1 ++
  appended (seen ++ (snippet_to_add <$> appended seen cs1)) cs2.
Proof.
  induction cs1 as [|c cs1 IH]; intros seen; simpl.
  - now rewrite app_nil_r.
  - case_bool_decide as Hc; [apply IH|].
    simpl. rewrite IH. now rewrite <- app_assoc.
Qed.

Lemma appended_covers cs : forall seen c,
  c ∈ cs ->
  snippet_to_add c ∈ seen \/
  snippet_to_add c ∈ (snippet_to_add <$> appended seen cs).
Proof.
  induction cs as [|d cs IH]; intros seen c Hc.
  - now apply elem_of_nil in Hc.
  - simpl. apply elem_of_cons in Hc as [->|Hc].
    + case_bool_decide as Hd; [now left|]. right. simpl. now left.
    + case_bool_decide as Hd; [now apply IH|].
      destruct (IH (seen ++ [snippet_to_add d]) c Hc) as [Hs|Hn].
      * apply elem_of_app in Hs as [Hs|Hs]; [now left|].
        apply list_elem_of_singleton in Hs. right. simpl. rewrite Hs. now left.
      * right. simpl. now right.
Qed.

Lemma join_app (l1 l2 : list string) : join (l1 ++ l2) = join l1 +:+ join l2.
Proof.
  induction l1 as [|x l1 IH]; [reflexivity|].
  cbn [app join foldr]. fold (join (l1 ++ l2)). fold (join l1).
  now rewrite IH, append_assoc.
Qed.

(** The closed form with the new candidates named as in the retrieval. *)
Lemma merge_first_new cs self :
  merge cs self =
  {| k := k self; index := index self;
     pages := slice_to (k self)
       (reverse (metadata_page <$> first_new (snippets self) [] cs)
        ++ pages self);
     snippets := slice_to (k self)
       (reverse (snippet_to_add <$> first_new (snippets self) [] cs)
        ++ snippets self) |}.
Proof. now rewrite merge_closed_form, appended_reverse_first_new. Qed.

(** X8: one update brings any object, over its capacity or not, back within
    it, pages included, when the size is not negative. *)
Theorem merge_within_capacity cs self :
  0 <= k self -> within_capacity (merge cs self).
Proof.
  intros Hk. unfold within_capacity. rewrite merge_k, merge_closed_form.
  cbn [snippets pages]. split; now apply slice_to_length.
Qed.

(** X2: without overflow nothing is dropped: the new candidates, last
    retrieved first, come before all that was held, in the object and in
    the returned text. *)
Theorem load_without_overflow
    (search : FAISS -> string -> list Document) self (history : string) :
  length (pages self) = length (snippets self) ->
  Z.of_nat (length (snippets self)
            + length (first_new (snippets self) []
                        (search (index self) history))) <= k self ->
  load_memory_variables search self history =
  ({| k := k self; index := index self;
      pages := reverse (metadata_page <$>
                 first_new (snippets self) [] (search (index self) history))
               ++ pages self;
      snippets := reverse (snippet_to_add <$>
                    first_new (snippets self) [] (search (index self) history))
                  ++ snippets self |},
   join (reverse (snippet_to_add <$>
           first_new (snippets self) [] (search (index self) history)))
   +:+ join (snippets self)).
Proof.
  intros Hlen Hfit. unfold load_memory_variables.
  rewrite merge_first_new. cbn [snippets].
  rewrite !slice_to_id, join_app; [reflexivity|..].
  - rewrite length_app, length_reverse, length_fmap. lia.
  - rewrite length_app, length_reverse, length_fmap. lia.
Qed.

(** X3: without overflow every retrieved candidate's block is held after the
    update. *)
Theorem merge_holds_every_candidate cs self c :
  Z.of_nat (length (snippets self)
            + length (first_new (snippets self) [] cs)) <= k self ->
  c ∈ cs -> snippet_to_add c ∈ snippets (merge cs self).
Proof.
  intros Hfit Hc. rewrite merge_first_new. cbn [snippets].
  rewrite slice_to_id
    by (rewrite length_app, length_reverse, length_fmap; lia).
  rewrite <- appended_reverse_first_new.
  apply elem_of_app.
  destruct (appended_covers cs (reverse (snippets self)) c Hc) as [Hs|Hn].
  - right. now apply elem_of_reverse.
  - left. now apply elem_of_reverse.
Qed.

End UpdateProperties.

(** ** Order, eviction and composition *)

Section EvictionProperties.

Context {FAISS : Type}.
Implicit Types (self : SnippetsBufferWindowMemory FAISS).
Implicit Types (cs : list Document) (seen : list string).

Lemma slice_to_cons {A : Type} (n : Z) (x : A) (l : list A) :
  0 < n -> slice_to n (x :: l) = x :: slice_to (n - 1) l.
Proof.
  intros Hn. rewrite !slice_to_nonneg by lia.
  replace (Z.to_nat n) with (S (Z.to_nat (n - 1))) by lia.
  reflexivity.
Qed.

(** With a positive size the last new candidate heads the window. *)
Lemma merge_new_head cs self (older : list Document) (d : Document) :
  0 < k self ->
  first_new (snippets self) [] cs = older ++ [d] ->
  snippets (merge cs self) =
    snippet_to_add d ::
    slice_to (k self - 1) (reverse (snippet_to_add <$> older) ++ snippets self) /\
  pages (merge cs self) =
    metadata_page d ::
    slice_to (k self - 1) (reverse (metadata_page <$> older) ++ pages self).
Proof.
  intros Hk Hnew. rewrite merge_first_new, Hnew. cbn [snippets pages].
  rewrite !fmap_app, !reverse_app. cbn [fmap list_fmap].
  rewrite !reverse_singleton. cbn [app].
  now rewrite !slice_to_cons by assumption.
Qed.

(** X4: after an update with a positive size, the first held entry is the
    last of the new candidates in retrieval order, block and page. *)
Theorem merge_newest_first cs self (d : Document) :
  0 < k self ->
  last (first_new (snippets self) [] cs) = Some d ->
  snippets (merge cs self) !! 0%nat = Some (snippet_to_add d) /\
  pages (merge cs self) !! 0%nat = Some (metadata_page d).
Proof.
  intros Hk Hlast. apply last_Some in Hlast as [older Hnew].
  destruct (merge_new_head cs self older d Hk Hnew) as [-> ->].
  split; reflexivity.
Qed.

(** X5: when at least [k] candidates are new, nothing held before survives:
    the window is the [k] last retrieved of the new candidates, last
    retrieved first. *)
Theorem merge_full_replacement cs self :
  0 <= k self ->
  k self <= Z.of_nat (length (first_new (snippets self) [] cs)) ->
  snippets (merge cs self) =
    take (Z.to_nat (k self))
      (reverse (snippet_to_add <$> first_new (snippets self) [] cs)) /\
  pages (merge cs self) =
    take (Z.to_nat (k self))
      (reverse (metadata_page <$> first_new (snippets self) [] cs)).
Proof.
  intros Hk Hmany. rewrite merge_first_new. cbn [snippets pages].
  rewrite !slice_to_nonneg by assumption.
  rewrite !take_app_le
    by (rewrite length_reverse, length_fmap; lia).
  split; reflexivity.
Qed.

(** X9: with a negative size the slice drops the last [-k] entries of the
    merged sequence instead of bounding it. *)
Theorem merge_negative_size cs self :
  k self < 0 ->
  snippets (merge cs self) =
    take (length (first_new (snippets self) [] cs) + length (snippets self)
          - Z.to_nat (- k self))
      (reverse (snippet_to_add <$> first_new (snippets self) [] cs)
       ++ snippets self) /\
  pages (merge cs self) =
    take (length (first_new (snippets self) [] cs) + length (pages self)
          - Z.to_nat (- k self))
      (reverse (metadata_page <$> first_new (snippets self) [] cs)
       ++ pages self).
Proof.
  intros Hk. rewrite merge_first_new. cbn [snippets pages].
  unfold slice_to. destruct (Z.ltb_spec (k self) 0) as [_|?]; [|lia].
  rewrite !length_app, !length_reverse, !length_fmap.
  split; f_equal; lia.
Qed.

(** X7: two updates in a row are one update on the two retrievals put end to
    end, when the first drops nothing. *)
Theorem merge_merge_concat cs1 cs2 self :
  length (pages self) = length (snippets self) ->
  Z.of_nat (length (snippets self)
            + length (first_new (snippets self) [] cs1)) <= k self ->
  merge cs2 (merge cs1 self) = merge (cs1 ++ cs2) self.
Proof.
  intros Hlen Hfit. rewrite <- appended_reverse_first_new in Hfit.
  assert (Hfirst : merge cs1 self =
    {| k := k self; index := index self;
       pages := reverse (metadata_page <$>
                  appended (reverse (snippets self)) cs1) ++ pages self;
       snippets := reverse (snippet_to_add <$>
                     appended (reverse (snippets self)) cs1)
                   ++ snippets self |}).
  { rewrite merge_closed_form.
    now rewrite !slice_to_id
      by (rewrite length_app, length_reverse, length_fmap; lia). }
  rewrite Hfirst, (merge_closed_form cs2). cbn [k index snippets pages].
  rewrite (merge_closed_form (cs1 ++ cs2) self), appended_app.
  rewrite reverse_app, reverse_involutive.
  rewrite !fmap_app, !reverse_app, <- !app_assoc.
  reflexivity.
Qed.

(** X6: within capacity and with a positive size, an update leaves the
    object as it was exactly when every candidate's block is already
    held. *)
Theorem merge_fixed_iff cs self :
  within_capacity self ->
  0 < k self ->
  merge cs self = self <->
  (forall c, c ∈ cs -> snippet_to_add c ∈ snippets self).
Proof.
  intros [Hs Hp] Hk. split.
  - intros Hfix c Hc.
    destruct (decide (snippet_to_add c ∈ snippets self)) as [Hin|Hout];
      [exact Hin|exfalso].
    destruct (last (first_new (snippets self) [] cs)) as [d0|] eqn:Hlast.
    2:{ apply last_None in Hlast as Hnew.
        rewrite <- appended_reverse_first_new in Hnew.
        apply appended_nil_iff with (c := c) in Hnew; [|assumption].
        apply Hout. now apply elem_of_reverse. }
    apply last_Some in Hlast as [l Hnew].
    + destruct (merge_new_head cs self l d0 Hk Hnew) as [Hhead _].
      rewrite Hfix in Hhead.
      assert (Hd : d0 ∈ appended (reverse (snippets self)) cs).
      { rewrite appended_reverse_first_new, Hnew.
        apply elem_of_app. right. now apply list_elem_of_singleton. }
      apply appended_spec in Hd as [_ Hd]. apply Hd, elem_of_reverse.
      rewrite Hhead. now left.
  - intros Hall.
    assert (Hnone : appended (reverse (snippets self)) cs = []).
    { apply appended_nil_iff. intros c Hc.
      apply elem_of_reverse. now apply Hall. }
    rewrite merge_closed_form, Hnone. cbn [fmap list_fmap].
    rewrite reverse_nil, !app_nil_l, !slice_to_id by assumption.
    now destruct self.
Qed.

End EvictionProperties.

(** ** Construction and series of updates *)

Section LifetimeProperties.

Context {FAISS : Type}.
Implicit Types (self : SnippetsBufferWindowMemory FAISS).
Implicit Types (cs : list Document) (i : FAISS).
Implicit Types (retrievals : list (list Document)).

Lemma run_index retrievals : forall self,
  index (run self retrievals) = index self.
Proof.
  induction retrievals as [|cs rs IH]; intros self; [reflexivity|].
  cbn [run foldl]. fold (run (merge cs self) rs).
  now rewrite IH, merge_index.
Qed.

Lemma run_invariant retrievals : forall self,
  0 <= k self -> within_capacity self -> NoDup (snippets self) ->
  within_capacity (run self retrievals) /\
  NoDup (snippets (run self retrievals)).
Proof.
  induction retrievals as [|cs rs IH]; intros self Hk Hcap Hnd.
  - now split.
  - cbn [run foldl]. fold (run (merge cs self) rs). apply IH.
    + now rewrite merge_k.
    + unfold within_capacity. rewrite merge_k, merge_closed_form.
      cbn [snippets pages]. split; now apply slice_to_length.
    + now apply merge_NoDup.
Qed.

Lemma run_blocks retrievals : forall self,
  (forall b, b ∈ snippets self -> exists d, b = snippet_to_add d) ->
  forall b, b ∈ snippets (run self retrievals) -> exists d, b = snippet_to_add d.
Proof.
  induction retrievals as [|cs rs IH]; intros self Hself; [exact Hself|].
  cbn [run foldl]. fold (run (merge cs self) rs). apply IH.
  intros b Hb. rewrite merge_closed_form in Hb. cbn [snippets] in Hb.
  apply slice_to_elem_of, elem_of_app in Hb as [Hb|Hb]; [|now apply Hself].
  apply elem_of_reverse, list_elem_of_fmap in Hb as (d & -> & _).
  now exists d.
Qed.

Lemma append_eq_empty (a b : string) : a +:+ b = "" -> a = "" /\ b = "".
Proof. destruct a; [now split|discriminate]. Qed.

Lemma snippet_to_add_nonempty (d : Document) : snippet_to_add d <> "".
Proof.
  unfold snippet_to_add. intros Hempty.
  apply append_eq_empty in Hempty as [_ Hempty]. discriminate Hempty.
Qed.

Lemma join_empty_iff (l : list string) :
  (forall b, b ∈ l -> b <> "") -> join l = "" <-> l = [].
Proof.
  intros Hl. split; [|now intros ->].
  destruct l as [|b l]; [reflexivity|].
  cbn [join foldr]. intros Hj. apply append_eq_empty in Hj as [Hb _].
  exfalso. apply (Hl b); [now left|assumption].
Qed.

(** X14: no series of updates changes the size or the index of the object. *)
Theorem run_keeps_configuration self retrievals :
  k (run self retrievals) = k self /\
  index (run self retrievals) = index self.
Proof. split; [apply run_k|apply run_index]. Qed.

(** X12: the memory [initialize_chat_conversation] builds exists for every
    index, has size 3, and after any series of updates holds at most 3
    blocks and 3 pages, the blocks all different. *)
Theorem snippets_memory_bounded i retrievals :
  exists self,
    snippets_memory i = inr self /\
    k (run self retrievals) = 3 /\
    (length (snippets (run self retrievals)) <= 3)%nat /\
    (length (pages (run self retrievals)) <= 3)%nat /\
    NoDup (snippets (run self retrievals)).
Proof.
  exists (empty_memory 3 i). split; [reflexivity|].
  destruct (run_invariant retrievals (empty_memory 3 i)) as [[Hs Hp] Hnd].
  - cbn. lia.
  - unfold within_capacity. cbn. lia.
  - apply NoDup_nil_2.
  - rewrite run_k in Hs, Hp. cbn [k empty_memory] in Hs, Hp.
    rewrite run_k. repeat split; [lia|lia|exact Hnd].
Qed.

(** X13: on an object reached from construction, the text a call returns is
    empty exactly when the call leaves nothing held. *)
Theorem returned_text_empty_iff
    (search : FAISS -> string -> list Document) i (k0 : Z) retrievals
    (history : string) :
  snd (load_memory_variables search
         (run (empty_memory k0 i) retrievals) history) = "" <->
  snippets (fst (load_memory_variables search
                   (run (empty_memory k0 i) retrievals) history)) = [].
Proof.
  unfold load_memory_variables. cbn [fst snd].
  apply join_empty_iff. intros b Hb.
  rewrite <- run_snoc in Hb.
  apply run_blocks in Hb as [d ->]; [apply snippet_to_add_nonempty|].
  intros b' Hb'. now apply elem_of_nil in Hb'.
Qed.

End LifetimeProperties.

(** ** The block as deduplication key *)

Lemma append_inv_head (a x y : string) : a +:+ x = a +:+ y -> x = y.
Proof.
  induction a as [|c a IH]; [trivial|].
  rewrite !append_cons. intros [= Heq]. now apply IH.
Qed.

Lemma length_append (a b : string) :
  String.length (a +:+ b) = (String.length a + String.length b)%nat.
Proof.
  induction a as [|c a IH]; [reflexivity|].
  rewrite append_cons. cbn [String.length]. now rewrite IH.
Qed.

Lemma append_inv_tail (t : string) : forall a b : string,
  a +:+ t = b +:+ t -> a = b.
Proof.
  induction a as [|c a IH]; intros [|c' b] Heq.
  - reflexivity.
  - apply (f_equal String.length) in Heq.
    rewrite !length_append in Heq. cbn [String.length] in Heq. lia.
  - apply (f_equal String.length) in Heq.
    rewrite !length_append in Heq. cbn [String.length] in Heq. lia.
  - rewrite !append_cons in Heq. injection Heq as -> Heq.
    f_equal. now apply IH.
Qed.

(** Two strings without [c], each followed by [c], split a text at the
    same place. *)
Lemma lacks_split (c : Ascii.ascii) : forall (a b r r' : string),
  lacks c a -> lacks c b ->
  a +:+ String c r = b +:+ String c r' -> a = b /\ r = r'.
Proof.
  induction a as [|x a IH]; intros [|y b] r r' Ha Hb Heq.
  - injection Heq as <-. now split.
  - rewrite append_cons in Heq. injection Heq as Hc _.
    destruct Hb as [Hy _]. now contradiction Hy.
  - rewrite append_cons in Heq. injection Heq as Hc _.
    destruct Ha as [Hx _]. now contradiction Hx.
  - rewrite !append_cons in Heq. injection Heq as -> Heq.
    destruct Ha as [_ Ha], Hb as [_ Hb].
    destruct (IH b r r' Ha Hb Heq) as [-> ->]. now split.
Qed.

Lemma lacks_pretty_N_char (x : N) : pretty_N_char x <> ">"%char.
Proof. unfold pretty_N_char. repeat case_match; discriminate. Qed.

Lemma lacks_pretty_N_go (x : N) : forall s,
  lacks ">" s -> lacks ">" (pretty_N_go x s).
Proof.
  induction (N.lt_wf_0 x) as [x _ IH]; intros s Hs.
  assert (x = 0 \/ 0 < x)%N as [->|Hpos] by lia.
  - now rewrite pretty_N_go_0.
  - rewrite pretty_N_go_step by assumption. apply IH.
    + now apply N.div_lt.
    + split; [apply lacks_pretty_N_char|assumption].
Qed.

Lemma lacks_pretty_N (x : N) : lacks ">" (pretty x).
Proof.
  unfold pretty, pretty_N. case_decide.
  - split; [discriminate|exact I].
  - apply lacks_pretty_N_go. exact I.
Qed.

Lemma lacks_str (n : Z) : lacks ">" (str n).
Proof.
  unfold str, pretty, pretty_Z. destruct n as [|p|p].
  - split; [discriminate|exact I].
  - apply lacks_pretty_N.
  - rewrite append_cons. split; [discriminate|]. apply lacks_pretty_N.
Qed.

(** X10: among documents of one title and one source the block tells the
    documents apart: equal blocks mean the same page number and the same
    text. *)
Theorem snippet_to_add_inj_same_source (d d' : Document) :
  metadata_title d = metadata_title d' ->
  metadata_source d = metadata_source d' ->
  snippet_to_add d = snippet_to_add d' ->
  d = d'.
Proof.
  destruct d as [body p title source], d' as [body' p' title' source'].
  cbn [metadata_title metadata_source]. intros <- <- Heq.
  unfold snippet_to_add in Heq.
  cbn [metadata_title metadata_source metadata_page page_content] in Heq.
  assert (Hrest :
    str (p + 1) +:+ String ">" (nl +:+ body +:+ nl +:+
      "<END_SNIPPET_PAGE_" +:+ str (p + 1) +:+ ">" +:+ nl) =
    str (p' + 1) +:+ String ">" (nl +:+ body' +:+ nl +:+
      "<END_SNIPPET_PAGE_" +:+ str (p' + 1) +:+ ">" +:+ nl)).
  { destruct (String.eqb title source);
      rewrite !append_empty_l, !append_assoc in Heq;
      repeat apply append_inv_head in Heq; exact Heq. }
  apply lacks_split in Hrest as [Hpage Htext]; [|apply lacks_str..].
  apply (inj pretty) in Hpage. assert (p' = p) as -> by lia.
  apply append_inv_head in Htext.
  apply append_inv_tail in Htext. now subst.
Qed.

(** ** Which entries an update evicts *)

Section EvictionPolicy.

Context {FAISS : Type}.
Implicit Types (self : SnippetsBufferWindowMemory FAISS).
Implicit Types (cs : list Document).

(** X1: with a size that is not negative, the window after an update is the
    new candidates, last retrieved first and at most [k] of them, followed
    by as many of the entries held before, from the front, as still fit:
    what is dropped is dropped from the back of the old window, and of
    the new candidates the first retrieved go first. *)
Theorem merge_eviction_policy cs self :
  0 <= k self ->
  snippets (merge cs self) =
    take (Z.to_nat (k self))
      (reverse (snippet_to_add <$> first_new (snippets self) [] cs))
    ++ take (Z.to_nat (k self) - length (first_new (snippets self) [] cs))
         (snippets self) /\
  pages (merge cs self) =
    take (Z.to_nat (k self))
      (reverse (metadata_page <$> first_new (snippets self) [] cs))
    ++ take (Z.to_nat (k self) - length (first_new (snippets self) [] cs))
         (pages self).
Proof.
  intros Hk. rewrite merge_first_new. cbn [snippets pages].
  rewrite !slice_to_nonneg by assumption.
  rewrite !take_app, !length_reverse, !length_fmap.
  split; reflexivity.
Qed.

End EvictionPolicy.

(** ** The further properties on the sample documents *)

Lemma merge_within_capacity_witness :
  within_capacity
    (merge [docC]
       {| k := 1; index := tt; pages := [0; 4];
          snippets := [snippet_to_add docA; snippet_to_add docB] |}).
Proof.
  apply (merge_within_capacity [docC]
    {| k := 1; index := tt; pages := [0; 4];
       snippets := [snippet_to_add docA; snippet_to_add docB] |}).
  cbn. lia.
Defined.

Lemma load_without_overflow_witness :
  load_memory_variables (fun _ _ => [docB; docC])
    {| k := 3; index := tt; pages := [0]; snippets := [snippet_to_add docA] |}
    "question" =
  ({| k := 3; index := tt; pages := [11; 4; 0];
      snippets := [snippet_to_add docC; snippet_to_add docB;
                   snippet_to_add docA] |},
   join [snippet_to_add docC; snippet_to_add docB] +:+
   join [snippet_to_add docA]).
Proof.
  apply (load_without_overflow (fun _ _ => [docB; docC])
    {| k := 3; index := tt; pages := [0]; snippets := [snippet_to_add docA] |}
    "question").
  - reflexivity.
  - vm_compute. discriminate.
Defined.

Lemma merge_holds_every_candidate_witness :
  snippet_to_add docB ∈
  snippets (merge [docB; docC]
    {| k := 3; index := tt; pages := [0]; snippets := [snippet_to_add docA] |}).
Proof.
  apply (merge_holds_every_candidate [docB; docC]
    {| k := 3; index := tt; pages := [0]; snippets := [snippet_to_add docA] |}
    docB).
  - vm_compute. discriminate.
  - now left.
Defined.

Lemma merge_newest_first_witness :
  snippets (merge [docB; docC] (empty_memory 1 tt)) !! 0%nat =
    Some (snippet_to_add docC) /\
  pages (merge [docB; docC] (empty_memory 1 tt)) !! 0%nat =
    Some (metadata_page docC).
Proof.
  apply (merge_newest_first [docB; docC] (empty_memory 1 tt) docC).
  - reflexivity.
  - reflexivity.
Defined.

Lemma merge_full_replacement_witness :
  snippets (merge [docB; docC]
    {| k := 1; index := tt; pages := [0]; snippets := [snippet_to_add docA] |}) =
    take (Z.to_nat 1) (reverse (snippet_to_add <$> [docB; docC])) /\
  pages (merge [docB; docC]
    {| k := 1; index := tt; pages := [0]; snippets := [snippet_to_add docA] |}) =
    take (Z.to_nat 1) (reverse (metadata_page <$> [docB; docC])).
Proof.
  apply (merge_full_replacement [docB; docC]
    {| k := 1; index := tt; pages := [0]; snippets := [snippet_to_add docA] |}).
  - cbn. lia.
  - vm_compute. discriminate.
Defined.

Lemma merge_negative_size_witness :
  snippets (merge [docB; docC]
    {| k := -1; index := tt; pages := [0]; snippets := [snippet_to_add docA] |}) =
    take (length [docB; docC] + length [snippet_to_add docA] - Z.to_nat (- -1))
      (reverse (snippet_to_add <$> [docB; docC]) ++ [snippet_to_add docA]) /\
  pages (merge [docB; docC]
    {| k := -1; index := tt; pages := [0]; snippets := [snippet_to_add docA] |}) =
    take (length [docB; docC] + length [0] - Z.to_nat (- -1))
      (reverse (metadata_page <$> [docB; docC]) ++ [0]).
Proof.
  apply (merge_negative_size [docB; docC]
    {| k := -1; index := tt; pages := [0]; snippets := [snippet_to_add docA] |}).
  reflexivity.
Defined.

Lemma merge_merge_concat_witness :
  merge [docC; docA] (merge [docA; docB] (empty_memory 2 tt)) =
  merge ([docA; docB] ++ [docC; docA]) (empty_memory 2 tt).
Proof.
  apply (merge_merge_concat [docA; docB] [docC; docA] (empty_memory 2 tt)).
  - reflexivity.
  - vm_compute. discriminate.
Defined.

Lemma merge_fixed_iff_witness :
  merge [docB; docA; docB]
    {| k := 2; index := tt; pages := [0; 4];
       snippets := [snippet_to_add docA; snippet_to_add docB] |} =
    {| k := 2; index := tt; pages := [0; 4];
       snippets := [snippet_to_add docA; snippet_to_add docB] |} <->
  (forall c, c ∈ [docB; docA; docB] ->
     snippet_to_add c ∈ [snippet_to_add docA; snippet_to_add docB]).
Proof.
  apply (merge_fixed_iff [docB; docA; docB]
    {| k := 2; index := tt; pages := [0; 4];
       snippets := [snippet_to_add docA; snippet_to_add docB] |}).
  - unfold within_capacity. cbn. lia.
  - reflexivity.
Defined.

Lemma merge_eviction_policy_witness :
  snippets (merge [docC]
    {| k := 2; index := tt; pages := [0; 4];
       snippets := [snippet_to_add docA; snippet_to_add docB] |}) =
    take (Z.to_nat 2) (reverse (snippet_to_add <$> [docC]))
    ++ take (Z.to_nat 2 - length [docC])
         [snippet_to_add docA; snippet_to_add docB] /\
  pages (merge [docC]
    {| k := 2; index := tt; pages := [0; 4];
       snippets := [snippet_to_add docA; snippet_to_add docB] |}) =
    take (Z.to_nat 2) (reverse (metadata_page <$> [docC]))
    ++ take (Z.to_nat 2 - length [docC]) [0; 4].
Proof.
  apply (merge_eviction_policy [docC]
    {| k := 2; index := tt; pages := [0; 4];
       snippets := [snippet_to_add docA; snippet_to_add docB] |}).
  cbn. lia.
Defined.

Lemma snippet_to_add_inj_same_source_witness :
  {| page_content := "beta"; metadata_page := 3 + 1;
     metadata_title := "Book B"; metadata_source := "b.pdf" |} = docB.
Proof.
  apply snippet_to_add_inj_same_source; reflexivity.
Defined.
